(** * TACSElement: the base class of the finite elements

    A shallow embedding of [src/elements/TACSElement.h].  The class holds
    two private [int] fields, a handful of pure-virtual slots that every
    formulation fills in, and default bodies for the remaining virtual
    methods.  The methods communicate with their caller through raw
    pointers, so they are modelled as computations over an explicit memory:
    a computation either returns a value and a new state, or has no defined
    behaviour (a write through a pointer that addresses no allocated cell). *)

From Stdlib Require Import Floats.PrimFloat.
From stdpp Require Import base numbers option list strings gmap.

Local Open Scope Z_scope.

(** ** The C++ [int] type *)

Definition INT_MIN : Z := - 2 ^ 31.
Definition INT_MAX : Z := 2 ^ 31 - 1.

Definition in_int_range (z : Z) : bool := (INT_MIN <=? z) && (z <=? INT_MAX).

(** Two's-complement reduction of a mathematical integer to an [int].  The
    language leaves a signed overflow undefined; the model takes the value
    the target machines produce. *)
Definition wrap_int (z : Z) : Z := (z + 2 ^ 31) mod 2 ^ 32 - 2 ^ 31.

(** [a * b] on two [int] operands. *)
Definition int_mul (a b : Z) : Z := wrap_int (a * b).

(** ** The fields of the class

    [private: int componentNum; int fdOrder = 2;] *)

Record TACSElement : Type := mkTACSElement {
  componentNum : Z;
  fdOrder : Z
}.

(** [TACSElement(int _componentNum = 0) { componentNum = _componentNum; }]
    The argument is optional; the default member initialiser gives
    [fdOrder] its value. *)
Definition TACSElement_new (_componentNum : option Z) : TACSElement :=
  {| componentNum := default 0 _componentNum; fdOrder := 2 |}.

(** ** The pure-virtual slots a formulation supplies

    [virtual int getVarsPerNode() = 0;] and [virtual int getNumNodes() = 0;]
    The quadrature slots are not used by any default body. *)

Record Formulation : Type := mkFormulation {
  getVarsPerNode : Z;
  getNumNodes : Z
}.

Section Element.

(** [TacsScalar], [ElementMatrixType] and the constants below come from
    headers that are included but are not part of the sources at hand
    ([TACSObject.h], [TACSElementTypes.h]); they are parameters here.
    [TacsZero] is the literal [0.0] converted to [TacsScalar];
    [TacsZeroBytes] is the scalar whose object representation consists of
    zero bytes only, which is what [memset(p, 0, ...)] leaves behind. *)
Variable TacsScalar : Type.
Variable TacsZero : TacsScalar.
Variable TacsZeroBytes : TacsScalar.
Variable TacsAdd : TacsScalar -> TacsScalar -> TacsScalar.
Variable ElementMatrixType : Type.
Variable double : Type.

(** ** Memory

    Pointers are addresses.  A [TacsScalar*] addresses a cell of the scalar
    store, an [int*] a cell of the integer store; [p + i] is the address of
    the [i]-th element after [p].  An address outside the domain of a store
    is not allocated. *)

Record Memory : Type := mkMemory {
  scalars : gmap Z TacsScalar;
  ints : gmap Z Z
}.

(** The state a method runs in: the object it is invoked on and the
    memory of its caller. *)
Record State : Type := mkState {
  this : TACSElement;
  mem : Memory
}.

(** ** Computations: state passing with undefined behaviour as [None] *)

Definition M (A : Type) : Type := State -> option (A * State).

Definition ret {A : Type} (a : A) : M A := fun s => Some (a, s).

Definition bind {A B : Type} (m : M A) (k : A -> M B) : M B :=
  fun s => match m s with
           | Some (a, s') => k a s'
           | None => None
           end.

Definition undefined {A : Type} : M A := fun _ => None.

Notation "m1 ;;; m2" := (bind m1 (fun _ => m2))
  (at level 62, right associativity).

(** [*p = x] for [TacsScalar *p]. *)
Definition store_scalar (p : Z) (x : TacsScalar) : M unit :=
  fun s =>
    match scalars (mem s) !! p with
    | Some _ =>
        Some (tt, {| this := this s;
                     mem := {| scalars := <[p := x]> (scalars (mem s));
                               ints := ints (mem s) |} |})
    | None => None
    end.

(** [*p = z] for [int *p]. *)
Definition store_int (p : Z) (z : Z) : M unit :=
  fun s =>
    match ints (mem s) !! p with
    | Some _ =>
        Some (tt, {| this := this s;
                     mem := {| scalars := scalars (mem s);
                               ints := <[p := z]> (ints (mem s)) |} |})
    | None => None
    end.

(** The element loop behind [memset]: [n] consecutive cells from [p] on. *)
Fixpoint zero_cells (p : Z) (n : nat) : M unit :=
  match n with
  | O => ret tt
  | S k => store_scalar p TacsZeroBytes ;;; zero_cells (p + 1) k
  end.

(** [memset(p, 0, count * sizeof(TacsScalar))] for [TacsScalar *p] and
    [int count].  A negative [count] converts to a [size_t] beyond the
    size of any object, so the call has no defined behaviour. *)
Definition memset_zero (p : Z) (count : Z) : M unit :=
  if count <? 0 then undefined else zero_cells p (Z.to_nat count).

(** [x = *p] for [TacsScalar *p]. *)
Definition load_scalar (p : Z) : M TacsScalar :=
  fun s =>
    match scalars (mem s) !! p with
    | Some x => Some (x, s)
    | None => None
    end.

(** The values of [n] consecutive cells from [p] on. *)
Fixpoint load_cells (p : Z) (n : nat) : M (list TacsScalar) :=
  match n with
  | O => ret []
  | S k =>
      bind (load_scalar p) (fun x =>
      bind (load_cells (p + 1) k) (fun l => ret (x :: l)))
  end.

(** The contents of the array of [count] scalars at [p]. *)
Definition load_array (p : Z) (count : Z) : M (list TacsScalar) :=
  if count <? 0 then undefined else load_cells p (Z.to_nat count).

(** [valid_range m p n]: [p] addresses an allocated array of [n] scalars. *)
Definition valid_range (m : gmap Z TacsScalar) (p : Z) (n : Z) : bool :=
  (0 <=? n) &&
  forallb (fun i => bool_decide (is_Some (m !! (p + Z.of_nat i))))
          (seq 0 (Z.to_nat n)).

(** A single allocated cell of either store. *)
Definition valid_scalar (m : gmap Z TacsScalar) (p : Z) : bool :=
  bool_decide (is_Some (m !! p)).

Definition valid_int (m : gmap Z Z) (p : Z) : bool :=
  bool_decide (is_Some (m !! p)).

(** [in_range p n a]: address [a] lies in the array of [n] cells at [p]. *)
Definition in_range (p n a : Z) : bool := (p <=? a) && (a <? p + n).

(** Two arrays share no cell. *)
Definition ranges_disjoint (p n q k : Z) : bool :=
  (n <=? 0) || (k <=? 0) || (p + n <=? q) || (q + k <=? p).

(** The array of [n] cells at [p] holds the same values in two states. *)
Definition same_array (s s' : State) (p n : Z) : Prop :=
  forall i, 0 <= i < n ->
            scalars (mem s') !! (p + i) = scalars (mem s) !! (p + i).

(** ** The methods *)

(** [void setComponentNum(int comp_num) { componentNum = comp_num; }] *)
Definition setComponentNum (comp_num : Z) : M unit :=
  fun s => Some (tt, {| this := {| componentNum := comp_num;
                                   fdOrder := fdOrder (this s) |};
                        mem := mem s |}).

(** [int getComponentNum() { return componentNum; }] *)
Definition getComponentNum : M Z :=
  fun s => Some (componentNum (this s), s).

(** [int getNumVariables() { return getNumNodes() * getVarsPerNode(); }] *)
Definition getNumVariables (F : Formulation) : M Z :=
  ret (int_mul (getNumNodes F) (getVarsPerNode F)).

(** [virtual int getMultiplierIndex() { return -1; }] *)
Definition getMultiplierIndex : M Z := ret (-1).

(** "A negative index indicates that no multiplier is defined." *)
Definition no_multiplier (index : Z) : bool := index <? 0.

(** A node index, relative to the ordering in the element. *)
Definition node_index (index : Z) : bool := 0 <=? index.

(** [getInitConditions]:
    [int num_vars = getNumNodes() * getVarsPerNode();] followed by three
    [memset(.., 0, num_vars * sizeof(TacsScalar))]. *)
Definition getInitConditions (F : Formulation) (elemIndex : Z)
    (Xpts vars dvars ddvars : Z) : M unit :=
  let num_vars := int_mul (getNumNodes F) (getVarsPerNode F) in
  memset_zero vars num_vars ;;;
  memset_zero dvars num_vars ;;;
  memset_zero ddvars num_vars.

(** [computeEnergies]: [*Te = 0.0; *Pe = 0.0;] *)
Definition computeEnergies (elemIndex : Z) (time : double)
    (Xpts vars dvars : Z) (Te Pe : Z) : M unit :=
  store_scalar Te TacsZero ;;;
  store_scalar Pe TacsZero.

(** [getMatVecDataSizes]: [*_data_size = 0; *_temp_size = 0;] *)
Definition getMatVecDataSizes (matType : ElementMatrixType) (elemIndex : Z)
    (_data_size _temp_size : Z) : M unit :=
  store_int _data_size 0 ;;;
  store_int _temp_size 0.

(** [addMatVecProduct]: the body is empty. *)
Definition addMatVecProduct (matType : ElementMatrixType) (elemIndex : Z)
    (data temp px py : Z) : M unit :=
  ret tt.

(** [evalPointQuantity]: [return 0;  // No quantities defined by default] *)
Definition evalPointQuantity (elemIndex quantityType : Z) (time : double)
    (n : Z) (pt Xpts vars dvars ddvars : Z) (detXd quantity : Z) : M Z :=
  ret 0.

(** [const char *getObjectName() { return "TACSElement"; }] *)
Definition getObjectName : M string := ret "TACSElement"%string.

(** [virtual TACSElementBasis *getElementBasis() { return NULL; }]
    A pointer to an object is an address or, for [NULL], [None]. *)
Definition getElementBasis : M (option Z) := ret None.

(** [virtual TACSElementModel *getElementModel() { return NULL; }] *)
Definition getElementModel : M (option Z) := ret None.

(** ** The residual

    [virtual void addResidual(...) = 0;] has no body in the class. *)

(** Modelled from the spec: the body of [addResidual], which every
    formulation has to write itself.  The spec fixes its shape: the
    nodal coordinates [Xpts] have length numNodes x spatial dimension, the
    state vectors and the residual have length numVariables, and the
    method "must add into [res], never overwrite".  What a formulation
    contributes is a function of the element index, the time and the
    nodal data it is handed. *)
Record ResidualForm : Type := mkResidualForm {
  spatialDim : Z;
  elemResidual : Z -> double -> list TacsScalar -> list TacsScalar ->
                 list TacsScalar -> list TacsScalar -> list TacsScalar
}.

(** Modelled from the spec: [res[i] += r[i]] for the [n] entries of the
    residual; a contribution with fewer than [n] entries breaks the
    length contract and leaves the behaviour undefined. *)
Fixpoint add_into (p : Z) (n : nat) (r : list TacsScalar) : M unit :=
  match n with
  | O => ret tt
  | S k =>
      match r with
      | [] => undefined
      | x :: r' =>
          bind (load_scalar p) (fun y => store_scalar p (TacsAdd y x)) ;;;
          add_into (p + 1) k r'
      end
  end.

(** Modelled from the spec: [addResidual] reads the nodal data, evaluates
    the formulation's contribution and accumulates it into [res]. *)
Definition addResidual (F : Formulation) (R : ResidualForm) (elemIndex : Z)
    (time : double) (Xpts vars dvars ddvars : Z) (res : Z) : M unit :=
  let num_vars := int_mul (getNumNodes F) (getVarsPerNode F) in
  bind (load_array Xpts (int_mul (getNumNodes F) (spatialDim R))) (fun X =>
  bind (load_array vars num_vars) (fun u =>
  bind (load_array dvars num_vars) (fun du =>
  bind (load_array ddvars num_vars) (fun ddu =>
  add_into res (Z.to_nat num_vars)
           (elemResidual R elemIndex time X u du ddu))))).

(** ** Callers

    What a caller does with one element: a sequence of method calls on the
    same object and the same memory.  The formulation [F] is the dynamic
    type of the object; the value a method returns is dropped, as in an
    expression statement. *)
Inductive Call : Type :=
  | CallSetComponentNum (comp_num : Z)
  | CallGetComponentNum
  | CallGetObjectName
  | CallGetNumVariables
  | CallGetMultiplierIndex
  | CallGetElementBasis
  | CallGetElementModel
  | CallGetInitConditions (elemIndex Xpts vars dvars ddvars : Z)
  | CallComputeEnergies (elemIndex : Z) (time : double)
                        (Xpts vars dvars Te Pe : Z)
  | CallGetMatVecDataSizes (matType : ElementMatrixType)
                           (elemIndex _data_size _temp_size : Z)
  | CallAddMatVecProduct (matType : ElementMatrixType)
                         (elemIndex data temp px py : Z)
  | CallEvalPointQuantity (elemIndex quantityType : Z) (time : double)
                          (n pt Xpts vars dvars ddvars detXd quantity : Z).

Definition drop {A : Type} (m : M A) : M unit := bind m (fun _ => ret tt).

Definition exec (F : Formulation) (c : Call) : M unit :=
  match c with
  | CallSetComponentNum comp_num => setComponentNum comp_num
  | CallGetComponentNum => drop getComponentNum
  | CallGetObjectName => drop getObjectName
  | CallGetNumVariables => drop (getNumVariables F)
  | CallGetMultiplierIndex => drop getMultiplierIndex
  | CallGetElementBasis => drop getElementBasis
  | CallGetElementModel => drop getElementModel
  | CallGetInitConditions elemIndex Xpts vars dvars ddvars =>
      getInitConditions F elemIndex Xpts vars dvars ddvars
  | CallComputeEnergies elemIndex time Xpts vars dvars Te Pe =>
      computeEnergies elemIndex time Xpts vars dvars Te Pe
  | CallGetMatVecDataSizes matType elemIndex _data_size _temp_size =>
      getMatVecDataSizes matType elemIndex _data_size _temp_size
  | CallAddMatVecProduct matType elemIndex data temp px py =>
      addMatVecProduct matType elemIndex data temp px py
  | CallEvalPointQuantity elemIndex quantityType time n pt Xpts vars dvars
                          ddvars detXd quantity =>
      drop (evalPointQuantity elemIndex quantityType time n pt Xpts vars
                              dvars ddvars detXd quantity)
  end.

Fixpoint run (F : Formulation) (calls : list Call) : M unit :=
  match calls with
  | [] => ret tt
  | c :: calls' => exec F c ;;; run F calls'
  end.

Definition is_setComponentNum (c : Call) : bool :=
  match c with
  | CallSetComponentNum _ => true
  | _ => false
  end.

(** The argument of the last [setComponentNum] of a sequence, [c0] when
    there is none. *)
Definition last_componentNum (calls : list Call) (c0 : Z) : Z :=
  fold_left (fun c call =>
               match call with
               | CallSetComponentNum comp_num => comp_num
               | _ => c
               end) calls c0.

(** Two runs end alike: both undefined, or both defined with the same
    memory. *)
Definition same_outcome (r1 r2 : option (unit * State)) : Prop :=
  match r1, r2 with
  | Some (_, s1), Some (_, s2) => mem s1 = mem s2
  | None, None => True
  | _, _ => False
  end.

End Element.

Arguments mkMemory {TacsScalar} _ _.
Arguments scalars {TacsScalar} _.
Arguments ints {TacsScalar} _.
Arguments mkState {TacsScalar} _ _.
Arguments this {TacsScalar} _.
Arguments mem {TacsScalar} _.
Arguments ret {TacsScalar A} _ _.
Arguments bind {TacsScalar A B} _ _ _.
Arguments undefined {TacsScalar A} _.
Arguments store_scalar {TacsScalar} _ _ _.
Arguments store_int {TacsScalar} _ _ _.
Arguments load_scalar {TacsScalar} _ _.
Arguments load_cells {TacsScalar} _ _ _.
Arguments load_array {TacsScalar} _ _ _.
Arguments zero_cells {TacsScalar} _ _ _ _.
Arguments memset_zero {TacsScalar} _ _ _ _.
Arguments valid_range {TacsScalar} _ _ _.
Arguments valid_scalar {TacsScalar} _ _.
Arguments same_array {TacsScalar} _ _ _ _.
Arguments setComponentNum {TacsScalar} _ _.
Arguments getComponentNum {TacsScalar} _.
Arguments getNumVariables {TacsScalar} _ _.
Arguments getMultiplierIndex {TacsScalar} _.
Arguments getInitConditions {TacsScalar} _ _ _ _ _ _ _ _.
Arguments computeEnergies {TacsScalar} _ {double} _ _ _ _ _ _ _ _.
Arguments getMatVecDataSizes {TacsScalar ElementMatrixType} _ _ _ _ _.
Arguments addMatVecProduct {TacsScalar ElementMatrixType} _ _ _ _ _ _ _.
Arguments evalPointQuantity {TacsScalar double} _ _ _ _ _ _ _ _ _ _ _ _.
Arguments mkResidualForm {TacsScalar double} _ _.
Arguments spatialDim {TacsScalar double} _.
Arguments elemResidual {TacsScalar double} _ _ _ _ _ _ _.
Arguments add_into {TacsScalar} _ _ _ _ _.
Arguments addResidual {TacsScalar} _ {double} _ _ _ _ _ _ _ _ _ _.

Arguments getObjectName {TacsScalar} _.
Arguments getElementBasis {TacsScalar} _.
Arguments getElementModel {TacsScalar} _.
Arguments CallSetComponentNum {ElementMatrixType double} _.
Arguments CallGetComponentNum {ElementMatrixType double}.
Arguments CallGetObjectName {ElementMatrixType double}.
Arguments CallGetNumVariables {ElementMatrixType double}.
Arguments CallGetMultiplierIndex {ElementMatrixType double}.
Arguments CallGetElementBasis {ElementMatrixType double}.
Arguments CallGetElementModel {ElementMatrixType double}.
Arguments CallGetInitConditions {ElementMatrixType double} _ _ _ _ _.
Arguments CallComputeEnergies {ElementMatrixType double} _ _ _ _ _ _ _.
Arguments CallGetMatVecDataSizes {ElementMatrixType double} _ _ _ _.
Arguments CallAddMatVecProduct {ElementMatrixType double} _ _ _ _ _ _.
Arguments CallEvalPointQuantity {ElementMatrixType double}
  _ _ _ _ _ _ _ _ _ _ _.
Arguments drop {TacsScalar A} _ _.
Arguments exec {TacsScalar} _ _ {ElementMatrixType double} _ _ _.
Arguments run {TacsScalar} _ _ {ElementMatrixType double} _ _ _.
Arguments is_setComponentNum {ElementMatrixType double} _.
Arguments last_componentNum {ElementMatrixType double} _ _.
Arguments same_outcome {TacsScalar} _ _.

(** ** A concrete element: the two-node spring in double precision *)

(** Modelled from the spec: the matrix kinds it names for the
    [ElementMatrixType] tag, whose declaration is in a missing header. *)
Inductive MatrixKind : Type :=
  | MassMatrix
  | StiffnessMatrix
  | GeometricStiffnessMatrix.

(** Two nodes, one degree of freedom per node. *)
Definition spring : Formulation :=
  {| getVarsPerNode := 1; getNumNodes := 2 |}.

(** The spring of stiffness [k]: the residual is [k (u0 - u1)] at the
    first node and [k (u1 - u0)] at the second. *)
Definition spring_residual (k : float) : ResidualForm float float :=
  {| spatialDim := 3;
     elemResidual := fun _ _ _ u _ _ =>
       match u with
       | u0 :: u1 :: _ => [(k * (u0 - u1))%float; (k * (u1 - u0))%float]
       | _ => []
       end |}.

(** A caller's memory.  Scalars: [Xpts] at 0..5, [vars] at 10..11, [dvars]
    at 20..21, [ddvars] at 30..31, [res] at 40..41, [Te] at 50, [Pe] at 51,
    [detXd] at 60, [quantity] at 61.  Integers: [_data_size] at 0,
    [_temp_size] at 1. *)
Definition demo_scalars : gmap Z float :=
  list_to_map
    [(0, 0%float); (1, 0%float); (2, 0%float);
     (3, 1%float); (4, 0%float); (5, 0%float);
     (10, 1%float); (11, 0%float);
     (20, 0.5%float); (21, 0.25%float);
     (30, 2%float); (31, 4%float);
     (40, 0%float); (41, 0%float);
     (50, 7.5%float); (51, (-3)%float);
     (60, 1.5%float); (61, 2.5%float)].

Definition demo_ints : gmap Z Z := list_to_map [(0, 17); (1, 42)].

Definition demo_state : State float :=
  {| this := TACSElement_new None;
     mem := {| scalars := demo_scalars; ints := demo_ints |} |}.

(** The same memory with another stale value in the [detXd] cell. *)
Definition demo_state' : State float :=
  {| this := TACSElement_new None;
     mem := {| scalars := <[60 := 9%float]> demo_scalars;
               ints := demo_ints |} |}.

(** A caller that retags the element between evaluations. *)
Definition demo_calls : list (@Call MatrixKind float) :=
  [CallSetComponentNum 7;
   CallGetInitConditions 0 0 10 20 30;
   CallGetNumVariables;
   CallComputeEnergies 0 0%float 0 10 20 50 51;
   CallSetComponentNum 3;
   CallGetMatVecDataSizes MassMatrix 0 0 1;
   CallAddMatVecProduct MassMatrix 0 0 0 10 40;
   CallEvalPointQuantity 0 0 0%float 0 0 0 10 20 30 60 61;
   CallGetElementBasis].

(** * Properties *)

Section ElementProperties.

Variable TacsScalar : Type.
Variable TacsZero : TacsScalar.
Variable TacsZeroBytes : TacsScalar.
Variable TacsAdd : TacsScalar -> TacsScalar -> TacsScalar.
Variable ElementMatrixType : Type.
Variable double : Type.

Implicit Types (s : State TacsScalar) (m : gmap Z TacsScalar).
Implicit Types (p a n : Z).

(** ** Integer arithmetic *)

Lemma wrap_int_id z : in_int_range z = true -> wrap_int z = z.
Proof.
  unfold in_int_range, INT_MIN, INT_MAX, wrap_int.
  intros H. apply andb_true_iff in H as [Hlo Hhi].
  apply Z.leb_le in Hlo, Hhi.
  rewrite Z.mod_small; lia.
Qed.

Lemma wrap_int_range z : in_int_range (wrap_int z) = true.
Proof.
  unfold in_int_range, INT_MIN, INT_MAX, wrap_int.
  pose proof (Z.mod_pos_bound (z + 2 ^ 31) (2 ^ 32) ltac:(lia)) as Hb.
  apply andb_true_iff. split; apply Z.leb_le; lia.
Qed.

(** ** Single cells *)

Lemma valid_scalar_spec m p : valid_scalar m p = true <-> is_Some (m !! p).
Proof. unfold valid_scalar. apply bool_decide_eq_true. Qed.

Lemma valid_int_spec (m : gmap Z Z) p :
  valid_int m p = true <-> is_Some (m !! p).
Proof. unfold valid_int. apply bool_decide_eq_true. Qed.

Lemma store_scalar_defined p x s :
  is_Some (scalars (mem s) !! p) ->
  store_scalar p x s =
    Some (tt, {| this := this s;
                 mem := {| scalars := <[p := x]> (scalars (mem s));
                           ints := ints (mem s) |} |}).
Proof. intros [y Hy]. unfold store_scalar. rewrite Hy. reflexivity. Qed.

Lemma store_int_defined p z s :
  is_Some (ints (mem s) !! p) ->
  store_int p z s =
    Some (tt, {| this := this s;
                 mem := {| scalars := scalars (mem s);
                           ints := <[p := z]> (ints (mem s)) |} |}).
Proof. intros [y Hy]. unfold store_int. rewrite Hy. reflexivity. Qed.

Lemma in_range_true p n a : in_range p n a = true <-> p <= a < p + n.
Proof.
  unfold in_range. rewrite andb_true_iff, Z.leb_le, Z.ltb_lt. reflexivity.
Qed.

Lemma in_range_false p n a : in_range p n a = false <-> a < p \/ p + n <= a.
Proof.
  unfold in_range. rewrite andb_false_iff, Z.leb_gt, Z.ltb_ge. reflexivity.
Qed.

Lemma valid_range_spec m p n :
  valid_range m p n = true <->
  0 <= n /\ forall i, 0 <= i < n -> is_Some (m !! (p + i)).
Proof.
  unfold valid_range. rewrite andb_true_iff, Z.leb_le, forallb_forall.
  split; intros [Hn H]; split; try assumption.
  - intros i Hi.
    specialize (H (Z.to_nat i)).
    rewrite Z2Nat.id in H by lia.
    eapply bool_decide_eq_true_1, H. apply in_seq. lia.
  - intros i Hi%in_seq. apply bool_decide_eq_true_2, H. lia.
Qed.

Lemma ranges_disjoint_spec p n q k i :
  ranges_disjoint p n q k = true -> 0 <= i < k ->
  in_range p n (q + i) = false.
Proof.
  unfold ranges_disjoint. rewrite !orb_true_iff, !Z.leb_le.
  intros H Hi. apply in_range_false. lia.
Qed.

Ltac range_cases :=
  repeat match goal with
         | |- context [in_range ?p ?n ?a] =>
             let E := fresh "E" in
             destruct (in_range p n a) eqn:E;
             [apply in_range_true in E | apply in_range_false in E]
         end.

(** ** [memset] *)

Lemma zero_cells_spec z (k : nat) : forall p s,
  (forall i, 0 <= i < Z.of_nat k -> is_Some (scalars (mem s) !! (p + i))) ->
  exists s', zero_cells z p k s = Some (tt, s') /\
    this s' = this s /\ ints (mem s') = ints (mem s) /\
    forall a, scalars (mem s') !! a =
              if in_range p (Z.of_nat k) a then Some z
              else scalars (mem s) !! a.
Proof.
  induction k as [|k IH]; intros p s Hv.
  - exists s. simpl. repeat split; try reflexivity.
    intros a. range_cases; [lia | reflexivity].
  - cbn [zero_cells]. unfold bind at 1.
    rewrite store_scalar_defined
      by (rewrite <- (Z.add_0_r p); apply Hv; lia).
    match goal with
    | |- context [zero_cells z (p + 1) k ?s1] =>
        destruct (IH (p + 1) s1) as (s' & Hrun & Hthis & Hints & Hlk)
    end.
    + intros i Hi. cbn [mem scalars].
      apply lookup_insert_is_Some'. right.
      replace (p + 1 + i) with (p + (i + 1)) by lia. apply Hv. lia.
    + exists s'. split; [exact Hrun |].
      split; [exact Hthis |]. split; [exact Hints |].
      intros a. rewrite Hlk. cbn [mem scalars].
      range_cases; try lia; try reflexivity.
      * assert (a = p) as -> by lia. apply lookup_insert_eq.
      * apply lookup_insert_ne. lia.
Qed.

Lemma memset_zero_spec z p n s :
  valid_range (scalars (mem s)) p n = true ->
  exists s', memset_zero z p n s = Some (tt, s') /\
    this s' = this s /\ ints (mem s') = ints (mem s) /\
    forall a, scalars (mem s') !! a =
              if in_range p n a then Some z else scalars (mem s) !! a.
Proof.
  intros [Hn Hv]%valid_range_spec. unfold memset_zero.
  destruct (n <? 0) eqn:E; [apply Z.ltb_lt in E; lia |].
  destruct (zero_cells_spec z (Z.to_nat n) p s) as (s' & Hrun & Hrest).
  - intros i Hi. apply Hv. lia.
  - exists s'. split; [exact Hrun |].
    rewrite Z2Nat.id in Hrest by lia. exact Hrest.
Qed.

Lemma memset_zero_valid z p n s s' q k :
  memset_zero z p n s = Some (tt, s') ->
  valid_range (scalars (mem s)) p n = true ->
  valid_range (scalars (mem s)) q k = true ->
  valid_range (scalars (mem s')) q k = true.
Proof.
  intros Hrun Hp Hq.
  destruct (memset_zero_spec z p n s Hp) as (s2 & Hrun2 & _ & _ & Hlk).
  rewrite Hrun in Hrun2. injection Hrun2 as <-.
  apply valid_range_spec in Hq as [Hk Hq].
  apply valid_range_spec. split; [exact Hk |].
  intros i Hi. rewrite Hlk. range_cases; [eauto | apply Hq, Hi].
Qed.

(** ** Reading arrays *)

Lemma load_cells_state (k : nat) : forall p s l s',
  load_cells p k s = Some (l, s') -> s' = s.
Proof.
  induction k as [|k IH]; intros p s l s'; cbn [load_cells].
  - unfold ret. congruence.
  - unfold bind, load_scalar, ret.
    destruct (scalars (mem s) !! p); [| discriminate].
    destruct (load_cells (p + 1) k s) as [[l' s1] |] eqn:E; [| discriminate].
    apply IH in E. congruence.
Qed.

Lemma load_cells_frame (k : nat) : forall p s s' l,
  (forall i, 0 <= i < Z.of_nat k ->
             scalars (mem s') !! (p + i) = scalars (mem s) !! (p + i)) ->
  load_cells p k s = Some (l, s) ->
  load_cells p k s' = Some (l, s').
Proof.
  induction k as [|k IH]; intros p s s' l Hsame; cbn [load_cells].
  - unfold ret. congruence.
  - unfold bind, load_scalar, ret.
    assert (scalars (mem s') !! p = scalars (mem s) !! p) as ->
      by (rewrite <- (Z.add_0_r p); apply Hsame; lia).
    destruct (scalars (mem s) !! p); [| discriminate].
    destruct (load_cells (p + 1) k s) as [[l' s1] |] eqn:E; [| discriminate].
    pose proof (load_cells_state _ _ _ _ _ E) as ->.
    intros H. injection H as <-.
    rewrite (IH (p + 1) s s' l'); [reflexivity | | exact E].
    intros i Hi. replace (p + 1 + i) with (p + (i + 1)) by lia.
    apply Hsame. lia.
Qed.

Lemma load_array_frame p n s s' l :
  (forall i, 0 <= i < n ->
             scalars (mem s') !! (p + i) = scalars (mem s) !! (p + i)) ->
  load_array p n s = Some (l, s) ->
  load_array p n s' = Some (l, s').
Proof.
  unfold load_array. intros Hsame.
  destruct (n <? 0) eqn:E; [discriminate |].
  apply Z.ltb_ge in E.
  apply load_cells_frame. intros i Hi. apply Hsame. lia.
Qed.

Lemma load_array_nonneg p n s l s' :
  load_array p n s = Some (l, s') -> 0 <= n.
Proof.
  unfold load_array. destruct (n <? 0) eqn:E; [discriminate |].
  intros _. apply Z.ltb_ge in E. exact E.
Qed.

(** ** Accumulation *)

Lemma add_into_spec (k : nat) : forall (r : list TacsScalar) p s,
  length r = k ->
  (forall i, 0 <= i < Z.of_nat k -> is_Some (scalars (mem s) !! (p + i))) ->
  exists s', add_into TacsAdd p k r s = Some (tt, s') /\
    this s' = this s /\ ints (mem s') = ints (mem s) /\
    (forall a, in_range p (Z.of_nat k) a = false ->
               scalars (mem s') !! a = scalars (mem s) !! a) /\
    (forall (i : nat) x, r !! i = Some x ->
       exists b, scalars (mem s) !! (p + Z.of_nat i) = Some b /\
                 scalars (mem s') !! (p + Z.of_nat i) = Some (TacsAdd b x)).
Proof.
  induction k as [|k IH]; intros r p s Hlen Hv.
  - exists s. destruct r; [| discriminate]. cbn [add_into].
    repeat split; try reflexivity. intros i x Hx. discriminate.
  - destruct r as [| x r]; [discriminate |]. cbn [add_into].
    destruct (Hv 0 ltac:(lia)) as [y Hy]. rewrite Z.add_0_r in Hy.
    unfold bind at 1 2. unfold load_scalar at 1. rewrite Hy.
    rewrite store_scalar_defined by eauto.
    match goal with
    | |- context [add_into TacsAdd (p + 1) k r ?s1] =>
        destruct (IH r (p + 1) s1) as (s' & Hrun & Hthis & Hints & Hout & Hin)
    end.
    + simpl in Hlen. lia.
    + intros i Hi. cbn [mem scalars].
      apply lookup_insert_is_Some'. right.
      replace (p + 1 + i) with (p + (i + 1)) by lia. apply Hv. lia.
    + exists s'. split; [exact Hrun |].
      split; [exact Hthis |]. split; [exact Hints |].
      cbn [mem scalars] in Hout, Hin. split.
      * intros a Ha. apply in_range_false in Ha.
        rewrite Hout by (apply in_range_false; lia).
        apply lookup_insert_ne. lia.
      * intros [| i] z Hz.
        -- injection Hz as <-. exists y.
           rewrite Z.add_0_r. split; [exact Hy |].
           rewrite Hout by (apply in_range_false; lia).
           apply lookup_insert_eq.
        -- destruct (Hin i z Hz) as (b & Hb & Hb').
           exists b.
           replace (p + Z.of_nat (S i)) with (p + 1 + Z.of_nat i) by lia.
           split; [| exact Hb'].
           rewrite <- Hb. symmetry. apply lookup_insert_ne. lia.
Qed.

(** ** The default bodies, as state transformers *)

Lemma getInitConditions_spec (F : Formulation) elemIndex Xpts vars dvars ddvars
    n s :
  n = int_mul (getNumNodes F) (getVarsPerNode F) ->
  valid_range (scalars (mem s)) vars n = true ->
  valid_range (scalars (mem s)) dvars n = true ->
  valid_range (scalars (mem s)) ddvars n = true ->
  exists s',
    getInitConditions TacsZeroBytes F elemIndex Xpts vars dvars ddvars s
      = Some (tt, s') /\
    this s' = this s /\ ints (mem s') = ints (mem s) /\
    forall a, scalars (mem s') !! a =
              if in_range vars n a || in_range dvars n a || in_range ddvars n a
              then Some TacsZeroBytes
              else scalars (mem s) !! a.
Proof.
  intros -> Hv Hd Hdd. unfold getInitConditions.
  set (n := int_mul (getNumNodes F) (getVarsPerNode F)) in *.
  destruct (memset_zero_spec TacsZeroBytes vars n s Hv)
    as (s1 & Hrun1 & Ht1 & Hi1 & Hl1).
  pose proof (memset_zero_valid _ _ _ _ _ _ _ Hrun1 Hv Hd) as Hd1.
  pose proof (memset_zero_valid _ _ _ _ _ _ _ Hrun1 Hv Hdd) as Hdd1.
  destruct (memset_zero_spec TacsZeroBytes dvars n s1 Hd1)
    as (s2 & Hrun2 & Ht2 & Hi2 & Hl2).
  pose proof (memset_zero_valid _ _ _ _ _ _ _ Hrun2 Hd1 Hdd1) as Hdd2.
  destruct (memset_zero_spec TacsZeroBytes ddvars n s2 Hdd2)
    as (s3 & Hrun3 & Ht3 & Hi3 & Hl3).
  exists s3. unfold bind. rewrite Hrun1, Hrun2, Hrun3.
  split; [reflexivity |]. split; [congruence |]. split; [congruence |].
  intros a. rewrite Hl3, Hl2, Hl1.
  destruct (in_range vars n a), (in_range dvars n a), (in_range ddvars n a);
    reflexivity.
Qed.

Lemma computeEnergies_spec elemIndex (time : double) Xpts vars dvars Te Pe s :
  valid_scalar (scalars (mem s)) Te = true ->
  valid_scalar (scalars (mem s)) Pe = true ->
  exists s',
    computeEnergies TacsZero elemIndex time Xpts vars dvars Te Pe s
      = Some (tt, s') /\
    this s' = this s /\ ints (mem s') = ints (mem s) /\
    forall a, scalars (mem s') !! a =
              if (a =? Te) || (a =? Pe) then Some TacsZero
              else scalars (mem s) !! a.
Proof.
  intros HTe%valid_scalar_spec HPe%valid_scalar_spec.
  unfold computeEnergies, bind.
  rewrite store_scalar_defined by exact HTe.
  rewrite store_scalar_defined
    by (cbn [mem scalars]; apply lookup_insert_is_Some'; right; exact HPe).
  eexists. split; [reflexivity |]. cbn [this mem scalars ints].
  repeat split. intros a.
  destruct (Z.eqb_spec a Pe) as [-> | HnP].
  - rewrite orb_true_r. apply lookup_insert_eq.
  - rewrite orb_false_r, lookup_insert_ne by congruence.
    destruct (Z.eqb_spec a Te) as [-> | HnT].
    + apply lookup_insert_eq.
    + apply lookup_insert_ne. congruence.
Qed.

Lemma addResidual_spec (F : Formulation) (R : ResidualForm TacsScalar double)
    elemIndex (time : double) Xpts vars dvars ddvars res n nX X u du ddu s :
  n = int_mul (getNumNodes F) (getVarsPerNode F) ->
  nX = int_mul (getNumNodes F) (spatialDim R) ->
  load_array Xpts nX s = Some (X, s) ->
  load_array vars n s = Some (u, s) ->
  load_array dvars n s = Some (du, s) ->
  load_array ddvars n s = Some (ddu, s) ->
  length (elemResidual R elemIndex time X u du ddu) = Z.to_nat n ->
  valid_range (scalars (mem s)) res n = true ->
  exists s',
    addResidual TacsAdd F R elemIndex time Xpts vars dvars ddvars res s
      = Some (tt, s') /\
    this s' = this s /\ ints (mem s') = ints (mem s) /\
    (forall a, in_range res n a = false ->
               scalars (mem s') !! a = scalars (mem s) !! a) /\
    (forall (i : nat) x,
       elemResidual R elemIndex time X u du ddu !! i = Some x ->
       exists b, scalars (mem s) !! (res + Z.of_nat i) = Some b /\
                 scalars (mem s') !! (res + Z.of_nat i) = Some (TacsAdd b x)).
Proof.
  intros -> -> HX Hu Hdu Hddu Hlen [Hn Hv]%valid_range_spec.
  unfold addResidual, bind. rewrite HX, Hu, Hdu, Hddu.
  set (n := int_mul (getNumNodes F) (getVarsPerNode F)) in *.
  destruct (add_into_spec (Z.to_nat n)
              (elemResidual R elemIndex time X u du ddu) res s Hlen)
    as (s' & Hrun & Hrest).
  - intros i Hi. apply Hv. lia.
  - exists s'. split; [exact Hrun |].
    rewrite Z2Nat.id in Hrest by lia. exact Hrest.
Qed.

(** ** The component number *)

(** C10: for every element and every integer [c], [getComponentNum()]
    called after [setComponentNum(c)] returns [c]; [setComponentNum]
    changes nothing but [componentNum] (the finite-difference order and the
    caller's memory stay as they were); an element constructed with the
    default argument has component number 0. *)
Theorem setComponentNum_getComponentNum (c : Z) s :
  (exists s',
     setComponentNum c s = Some (tt, s') /\
     bind (setComponentNum c) (fun _ => getComponentNum) s = Some (c, s') /\
     fdOrder (this s') = fdOrder (this s) /\
     mem s' = mem s) /\
  componentNum (TACSElement_new None) = 0.
Proof.
  split; [| reflexivity].
  eexists. split; [reflexivity |]. repeat split.
Qed.

(** The finite-difference order of a new element is 2, whatever the
    component number it is constructed with. *)
Lemma fdOrder_initial (c : option Z) : fdOrder (TACSElement_new c) = 2.
Proof. reflexivity. Qed.

(** ** Dimensions *)

(** C1: for every element, [getNumVariables()] returns
    [getNumNodes() * getVarsPerNode()], the product of the two accessors in
    [int] arithmetic, whatever they return, and leaves the state alone;
    when the mathematical product is representable as an [int], the result
    is that product. *)
Theorem getNumVariables_is_product (F : Formulation) s :
  getNumVariables F s
    = Some (int_mul (getNumNodes F) (getVarsPerNode F), s) /\
  (in_int_range (getNumNodes F * getVarsPerNode F) = true ->
   getNumVariables F s = Some (getNumNodes F * getVarsPerNode F, s)).
Proof.
  split; [reflexivity |].
  intros Hr. unfold getNumVariables, ret, int_mul.
  rewrite wrap_int_id by exact Hr. reflexivity.
Qed.

(** C8: the default [getMultiplierIndex()] returns a sentinel that means
    "no multiplier": the sentinel is negative, every node index is at least
    0, so the sentinel differs from every node index. *)
Theorem getMultiplierIndex_default_sentinel s :
  exists r,
    getMultiplierIndex s = Some (r, s) /\
    no_multiplier r = true /\
    in_int_range r = true /\
    forall i, node_index i = true -> no_multiplier i = false /\ r <> i.
Proof.
  exists (-1). split; [reflexivity |]. split; [reflexivity |].
  split; [reflexivity |].
  unfold node_index, no_multiplier. intros i Hi%Z.leb_le.
  split; [apply Z.ltb_ge; exact Hi | lia].
Qed.

(** ** Initial conditions and energies *)

(** C6: the default [getInitConditions] zeroes the initial state: with
    [n = getNumNodes() * getVarsPerNode()] and three arrays of [n] scalars,
    the call returns, every one of the [n] entries of [vars], [dvars] and
    [ddvars] is zero afterwards, and no cell outside these [n] entries of
    each array is touched. *)
Theorem getInitConditions_default_all_zero (F : Formulation)
    elemIndex Xpts vars dvars ddvars n s :
  TacsZeroBytes = TacsZero ->
  n = int_mul (getNumNodes F) (getVarsPerNode F) ->
  valid_range (scalars (mem s)) vars n = true ->
  valid_range (scalars (mem s)) dvars n = true ->
  valid_range (scalars (mem s)) ddvars n = true ->
  exists s',
    getInitConditions TacsZeroBytes F elemIndex Xpts vars dvars ddvars s
      = Some (tt, s') /\
    (forall i, 0 <= i < n ->
       scalars (mem s') !! (vars + i) = Some TacsZero /\
       scalars (mem s') !! (dvars + i) = Some TacsZero /\
       scalars (mem s') !! (ddvars + i) = Some TacsZero) /\
    (forall a,
       in_range vars n a = false -> in_range dvars n a = false ->
       in_range ddvars n a = false ->
       scalars (mem s') !! a = scalars (mem s) !! a).
Proof.
  intros Hrep Hn Hv Hd Hdd.
  destruct (getInitConditions_spec F elemIndex Xpts vars dvars ddvars n s
              Hn Hv Hd Hdd) as (s' & Hrun & _ & _ & Hlk).
  exists s'. split; [exact Hrun |]. split.
  - intros i Hi. rewrite !Hlk, <- Hrep.
    assert (in_range vars n (vars + i) = true) as ->
      by (apply in_range_true; lia).
    assert (in_range dvars n (dvars + i) = true) as ->
      by (apply in_range_true; lia).
    assert (in_range ddvars n (ddvars + i) = true) as ->
      by (apply in_range_true; lia).
    rewrite !orb_true_r. repeat split; reflexivity.
  - intros a H1 H2 H3. rewrite Hlk, H1, H2, H3. reflexivity.
Qed.

(** C7: the default [computeEnergies] sets both energies to zero: for every
    element index, time and input pointers, after the call [*Te] and [*Pe]
    are 0, whatever the two cells held before. *)
Theorem computeEnergies_default_zero elemIndex (time : double)
    Xpts vars dvars Te Pe s :
  valid_scalar (scalars (mem s)) Te = true ->
  valid_scalar (scalars (mem s)) Pe = true ->
  exists s',
    computeEnergies TacsZero elemIndex time Xpts vars dvars Te Pe s
      = Some (tt, s') /\
    scalars (mem s') !! Te = Some TacsZero /\
    scalars (mem s') !! Pe = Some TacsZero.
Proof.
  intros HTe HPe.
  destruct (computeEnergies_spec elemIndex time Xpts vars dvars Te Pe s
              HTe HPe) as (s' & Hrun & _ & _ & Hlk).
  exists s'. split; [exact Hrun |].
  rewrite !Hlk, !Z.eqb_refl, orb_true_r. split; reflexivity.
Qed.

(** ** The matrix-free product *)

(** C5: by default the matrix-free product is unsupported: for every
    matrix type and element index, [getMatVecDataSizes] stores 0 in both
    sizes (and changes nothing else), and [addMatVecProduct] is a no-op, so
    the output vector [py] is what it was for every input vector [px], also
    when the two calls are made one after the other. *)
Theorem matvec_default_unsupported (matType : ElementMatrixType)
    elemIndex _data_size _temp_size data temp px py s :
  valid_int (ints (mem s)) _data_size = true ->
  valid_int (ints (mem s)) _temp_size = true ->
  (exists s',
     getMatVecDataSizes matType elemIndex _data_size _temp_size s
       = Some (tt, s') /\
     ints (mem s') !! _data_size = Some 0 /\
     ints (mem s') !! _temp_size = Some 0 /\
     scalars (mem s') = scalars (mem s) /\
     this s' = this s /\
     addMatVecProduct matType elemIndex data temp px py s' = Some (tt, s')) /\
  addMatVecProduct matType elemIndex data temp px py s = Some (tt, s).
Proof.
  intros Hd%valid_int_spec Ht%valid_int_spec.
  split; [| reflexivity].
  unfold getMatVecDataSizes, bind.
  rewrite store_int_defined by exact Hd.
  rewrite store_int_defined
    by (cbn [mem ints]; apply lookup_insert_is_Some'; right; exact Ht).
  eexists. split; [reflexivity |]. cbn [this mem scalars ints].
  split.
  - destruct (decide (_data_size = _temp_size)) as [-> | Hne].
    + apply lookup_insert_eq.
    + rewrite lookup_insert_ne by congruence. apply lookup_insert_eq.
  - split; [apply lookup_insert_eq |]. repeat split.
Qed.

(** ** Point quantities *)

(** C4, as the code has it: for every input the default
    [evalPointQuantity] returns 0, the number of quantities it wrote (it
    recognises no quantity type), and leaves the whole state as it was: it
    writes neither [quantity] nor [detXd] nor any other cell. *)
Theorem evalPointQuantity_default_no_quantity elemIndex quantityType
    (time : double) n pt Xpts vars dvars ddvars detXd quantity s :
  exists s',
    evalPointQuantity elemIndex quantityType time n pt Xpts vars dvars ddvars
                      detXd quantity s
      = Some (0, s') /\
    this s' = this s /\
    ints (mem s') = ints (mem s) /\
    scalars (mem s') !! detXd = scalars (mem s) !! detXd /\
    scalars (mem s') !! quantity = scalars (mem s) !! quantity /\
    forall a, scalars (mem s') !! a = scalars (mem s) !! a.
Proof.
  exists s. unfold evalPointQuantity, ret.
  split; [reflexivity |].
  repeat split.
Qed.

(** ** Frame *)

(** C9: the default evaluation operations write nothing but the output
    buffers their caller supplies.  [getInitConditions] and
    [computeEnergies] return, leave the element ([componentNum],
    [fdOrder]) as it was and leave every input array that shares no cell
    with their outputs as it was; [addMatVecProduct] and
    [evalPointQuantity] leave the whole state as it was. *)
Theorem default_evaluation_frame (F : Formulation)
    (matType : ElementMatrixType) elemIndex quantityType (time : double)
    nq pt Xpts vars dvars ddvars Te Pe data temp px py detXd quantity
    n lenX s :
  n = int_mul (getNumNodes F) (getVarsPerNode F) ->
  valid_range (scalars (mem s)) vars n = true ->
  valid_range (scalars (mem s)) dvars n = true ->
  valid_range (scalars (mem s)) ddvars n = true ->
  valid_scalar (scalars (mem s)) Te = true ->
  valid_scalar (scalars (mem s)) Pe = true ->
  ranges_disjoint vars n Xpts lenX = true ->
  ranges_disjoint dvars n Xpts lenX = true ->
  ranges_disjoint ddvars n Xpts lenX = true ->
  in_range Xpts lenX Te = false -> in_range Xpts lenX Pe = false ->
  in_range vars n Te = false -> in_range vars n Pe = false ->
  in_range dvars n Te = false -> in_range dvars n Pe = false ->
  (exists s',
     getInitConditions TacsZeroBytes F elemIndex Xpts vars dvars ddvars s
       = Some (tt, s') /\
     this s' = this s /\ ints (mem s') = ints (mem s) /\
     same_array s s' Xpts lenX) /\
  (exists s',
     computeEnergies TacsZero elemIndex time Xpts vars dvars Te Pe s
       = Some (tt, s') /\
     this s' = this s /\ ints (mem s') = ints (mem s) /\
     same_array s s' Xpts lenX /\ same_array s s' vars n /\
     same_array s s' dvars n) /\
  addMatVecProduct matType elemIndex data temp px py s = Some (tt, s) /\
  evalPointQuantity elemIndex quantityType time nq pt Xpts vars dvars ddvars
                    detXd quantity s = Some (0, s).
Proof.
  intros Hn Hv Hd Hdd HTe HPe Dv Dd Ddd XTe XPe VTe VPe DTe DPe.
  split; [| split; [| split; reflexivity]].
  - destruct (getInitConditions_spec F elemIndex Xpts vars dvars ddvars n s
                Hn Hv Hd Hdd) as (s' & Hrun & Hthis & Hints & Hlk).
    exists s'. split; [exact Hrun |]. split; [exact Hthis |].
    split; [exact Hints |].
    intros i Hi. rewrite Hlk.
    rewrite (ranges_disjoint_spec _ _ _ _ _ Dv Hi),
            (ranges_disjoint_spec _ _ _ _ _ Dd Hi),
            (ranges_disjoint_spec _ _ _ _ _ Ddd Hi).
    reflexivity.
  - destruct (computeEnergies_spec elemIndex time Xpts vars dvars Te Pe s
                HTe HPe) as (s' & Hrun & Hthis & Hints & Hlk).
    exists s'. split; [exact Hrun |]. split; [exact Hthis |].
    split; [exact Hints |].
    apply in_range_false in XTe, XPe, VTe, VPe, DTe, DPe.
    repeat split; intros i Hi; rewrite Hlk;
      match goal with
      | |- (if (?a =? Te) || (?a =? Pe) then _ else _) = _ =>
          destruct (Z.eqb_spec a Te); [lia |];
          destruct (Z.eqb_spec a Pe); [lia |]; reflexivity
      end.
Qed.

(** ** Accumulation of the residual *)

(** C2: [addResidual] adds into [res] and does not overwrite it.  For
    every formulation, every state [Xpts], [vars], [dvars], [ddvars] and
    every residual buffer of [numVariables] entries that shares no cell
    with the state, two calls in succession return; an entry that held [b]
    holds [b + x] after the first call and [(b + x) + x] after the second,
    where [x] is the formulation's contribution to it; and in a buffer
    that was zero before the first call the second call leaves exactly the
    double of what the first call left. *)
Theorem addResidual_accumulates_twice (F : Formulation)
    (R : ResidualForm TacsScalar double) elemIndex (time : double)
    Xpts vars dvars ddvars res n nX X u du ddu s :
  n = int_mul (getNumNodes F) (getVarsPerNode F) ->
  nX = int_mul (getNumNodes F) (spatialDim R) ->
  load_array Xpts nX s = Some (X, s) ->
  load_array vars n s = Some (u, s) ->
  load_array dvars n s = Some (du, s) ->
  load_array ddvars n s = Some (ddu, s) ->
  length (elemResidual R elemIndex time X u du ddu) = Z.to_nat n ->
  valid_range (scalars (mem s)) res n = true ->
  ranges_disjoint res n Xpts nX = true ->
  ranges_disjoint res n vars n = true ->
  ranges_disjoint res n dvars n = true ->
  ranges_disjoint res n ddvars n = true ->
  exists s1 s2,
    addResidual TacsAdd F R elemIndex time Xpts vars dvars ddvars res s
      = Some (tt, s1) /\
    addResidual TacsAdd F R elemIndex time Xpts vars dvars ddvars res s1
      = Some (tt, s2) /\
    forall (i : nat) b x,
      scalars (mem s) !! (res + Z.of_nat i) = Some b ->
      elemResidual R elemIndex time X u du ddu !! i = Some x ->
      scalars (mem s1) !! (res + Z.of_nat i) = Some (TacsAdd b x) /\
      scalars (mem s2) !! (res + Z.of_nat i)
        = Some (TacsAdd (TacsAdd b x) x) /\
      (b = TacsZero -> TacsAdd TacsZero x = x ->
       scalars (mem s1) !! (res + Z.of_nat i) = Some x /\
       scalars (mem s2) !! (res + Z.of_nat i) = Some (TacsAdd x x)).
Proof.
  intros Hn HnX HX Hu Hdu Hddu Hlen Hres DX Du Ddu Dddu.
  destruct (addResidual_spec F R elemIndex time Xpts vars dvars ddvars res
              n nX X u du ddu s Hn HnX HX Hu Hdu Hddu Hlen Hres)
    as (s1 & Hrun1 & _ & _ & Hout1 & Hin1).
  assert (Hframe : forall q k, ranges_disjoint res n q k = true ->
            forall i, 0 <= i < k ->
              scalars (mem s1) !! (q + i) = scalars (mem s) !! (q + i)).
  { intros q k Hd i Hi. apply Hout1.
    apply (ranges_disjoint_spec _ _ _ _ _ Hd Hi). }
  assert (Hres1 : valid_range (scalars (mem s1)) res n = true).
  { apply valid_range_spec in Hres as [Hn0 Hv].
    apply valid_range_spec. split; [exact Hn0 |]. intros i Hi.
    destruct (lookup_lt_is_Some_2
                (elemResidual R elemIndex time X u du ddu) (Z.to_nat i))
      as [x Hx]; [lia |].
    destruct (Hin1 _ _ Hx) as (b & _ & Hb).
    rewrite Z2Nat.id in Hb by lia. eauto. }
  destruct (addResidual_spec F R elemIndex time Xpts vars dvars ddvars res
              n nX X u du ddu s1 Hn HnX
              (load_array_frame _ _ _ _ _ (Hframe _ _ DX) HX)
              (load_array_frame _ _ _ _ _ (Hframe _ _ Du) Hu)
              (load_array_frame _ _ _ _ _ (Hframe _ _ Ddu) Hdu)
              (load_array_frame _ _ _ _ _ (Hframe _ _ Dddu) Hddu)
              Hlen Hres1)
    as (s2 & Hrun2 & _ & _ & _ & Hin2).
  exists s1, s2. split; [exact Hrun1 |]. split; [exact Hrun2 |].
  intros i b x Hb Hx.
  destruct (Hin1 _ _ Hx) as (b1 & Hb1 & Hs1).
  destruct (Hin2 _ _ Hx) as (b2 & Hb2 & Hs2).
  assert (b1 = b) as -> by congruence.
  assert (b2 = TacsAdd b x) as -> by congruence.
  split; [exact Hs1 |]. split; [exact Hs2 |].
  intros -> Hneutral. rewrite Hs1, Hs2, Hneutral. split; reflexivity.
Qed.

(** * Further properties of the default bodies *)

(** ** States and allocation *)

Lemma state_eq s1 s2 :
  this s1 = this s2 -> ints (mem s1) = ints (mem s2) ->
  (forall a, scalars (mem s1) !! a = scalars (mem s2) !! a) ->
  s1 = s2.
Proof.
  destruct s1 as [t1 [sc1 i1]], s2 as [t2 [sc2 i2]]. cbn.
  intros -> -> H. do 2 f_equal. apply map_eq, H.
Qed.

Lemma valid_range_ext m m' p n :
  (forall a, is_Some (m' !! a) <-> is_Some (m !! a)) ->
  valid_range m' p n = valid_range m p n.
Proof.
  intros H. apply Bool.eq_true_iff_eq. rewrite !valid_range_spec.
  split; intros [Hn Hv]; (split; [exact Hn |]); intros i Hi;
    apply H, Hv, Hi.
Qed.

Lemma valid_range_transport m m' p n :
  (forall a, is_Some (m' !! a) <-> is_Some (m !! a)) ->
  valid_range m p n = true -> valid_range m' p n = true.
Proof. intros H Hv. rewrite (valid_range_ext _ _ _ _ H). exact Hv. Qed.

Lemma valid_scalar_transport m m' p :
  (forall a, is_Some (m' !! a) <-> is_Some (m !! a)) ->
  valid_scalar m p = true -> valid_scalar m' p = true.
Proof.
  intros H. rewrite !valid_scalar_spec. apply H.
Qed.

(** A defined [memset] has written into allocated cells only. *)
Lemma zero_cells_inv z (k : nat) : forall p s u s',
  zero_cells z p k s = Some (u, s') ->
  forall i, 0 <= i < Z.of_nat k -> is_Some (scalars (mem s) !! (p + i)).
Proof.
  induction k as [|k IH]; intros p s u s' Hrun i Hi; [lia |].
  cbn [zero_cells] in Hrun. unfold bind at 1 in Hrun.
  unfold store_scalar at 1 in Hrun.
  destruct (scalars (mem s) !! p) as [y |] eqn:Hp; [| discriminate].
  destruct (decide (i = 0)) as [-> | Hne].
  - rewrite Z.add_0_r, Hp. eauto.
  - pose proof (IH _ _ _ _ Hrun (i - 1) ltac:(lia)) as H.
    cbn [mem scalars] in H.
    replace (p + 1 + (i - 1)) with (p + i) in H by lia.
    rewrite lookup_insert_ne in H by lia. exact H.
Qed.

Lemma memset_zero_inv z p n s u s' :
  memset_zero z p n s = Some (u, s') ->
  valid_range (scalars (mem s)) p n = true.
Proof.
  unfold memset_zero. destruct (n <? 0) eqn:E; [discriminate |].
  apply Z.ltb_ge in E. intros H. apply valid_range_spec.
  split; [exact E |]. intros i Hi.
  eapply zero_cells_inv; [exact H | lia].
Qed.

Lemma memset_zero_alloc z p n s u s' :
  memset_zero z p n s = Some (u, s') ->
  forall a, is_Some (scalars (mem s') !! a) <->
            is_Some (scalars (mem s) !! a).
Proof.
  intros Hrun a. pose proof (memset_zero_inv _ _ _ _ _ _ Hrun) as Hv.
  destruct (memset_zero_spec z p n s Hv) as (s2 & Hrun2 & _ & _ & Hlk).
  rewrite Hrun in Hrun2. destruct u. injection Hrun2 as <-.
  rewrite Hlk. apply valid_range_spec in Hv as [_ Hv].
  range_cases; [| reflexivity].
  split; [intros _ | eauto].
  replace a with (p + (a - p)) by lia. apply Hv. lia.
Qed.

Lemma getInitConditions_inv (F : Formulation) elemIndex Xpts vars dvars
    ddvars n s u s' :
  n = int_mul (getNumNodes F) (getVarsPerNode F) ->
  getInitConditions TacsZeroBytes F elemIndex Xpts vars dvars ddvars s
    = Some (u, s') ->
  valid_range (scalars (mem s)) vars n = true /\
  valid_range (scalars (mem s)) dvars n = true /\
  valid_range (scalars (mem s)) ddvars n = true.
Proof.
  intros ->. unfold getInitConditions, bind.
  destruct (memset_zero TacsZeroBytes vars _ s) as [[u1 s1] |] eqn:E1;
    [| discriminate].
  destruct (memset_zero TacsZeroBytes dvars _ s1) as [[u2 s2] |] eqn:E2;
    [| discriminate].
  intros E3.
  pose proof (memset_zero_alloc _ _ _ _ _ _ E1) as A1.
  pose proof (memset_zero_alloc _ _ _ _ _ _ E2) as A2.
  split; [exact (memset_zero_inv _ _ _ _ _ _ E1) |]. split.
  - rewrite <- (valid_range_ext _ _ _ _ A1).
    exact (memset_zero_inv _ _ _ _ _ _ E2).
  - rewrite <- (valid_range_ext _ _ _ _ A1),
            <- (valid_range_ext _ _ _ _ A2).
    exact (memset_zero_inv _ _ _ _ _ _ E3).
Qed.

Lemma getInitConditions_alloc (F : Formulation) elemIndex Xpts vars dvars
    ddvars s u s' :
  getInitConditions TacsZeroBytes F elemIndex Xpts vars dvars ddvars s
    = Some (u, s') ->
  this s' = this s /\ ints (mem s') = ints (mem s) /\
  forall a, is_Some (scalars (mem s') !! a) <->
            is_Some (scalars (mem s) !! a).
Proof.
  intros Hrun.
  destruct (getInitConditions_inv F elemIndex Xpts vars dvars ddvars _ s u
              s' eq_refl Hrun) as (Hv & Hd & Hdd).
  destruct (getInitConditions_spec F elemIndex Xpts vars dvars ddvars _ s
              eq_refl Hv Hd Hdd) as (s2 & Hrun2 & Hthis & Hints & Hlk).
  rewrite Hrun in Hrun2. destruct u. injection Hrun2 as <-.
  split; [exact Hthis |]. split; [exact Hints |].
  intros a. rewrite Hlk.
  apply valid_range_spec in Hv as [_ Hv], Hd as [_ Hd], Hdd as [_ Hdd].
  range_cases; cbn [orb]; try reflexivity;
    (split; [intros _ | eauto]).
  - replace a with (vars + (a - vars)) by lia. apply Hv. lia.
  - replace a with (vars + (a - vars)) by lia. apply Hv. lia.
  - replace a with (vars + (a - vars)) by lia. apply Hv. lia.
  - replace a with (vars + (a - vars)) by lia. apply Hv. lia.
  - replace a with (dvars + (a - dvars)) by lia. apply Hd. lia.
  - replace a with (dvars + (a - dvars)) by lia. apply Hd. lia.
  - replace a with (ddvars + (a - ddvars)) by lia. apply Hdd. lia.
Qed.

Lemma computeEnergies_inv elemIndex (time : double) Xpts vars dvars Te Pe
    s u s' :
  computeEnergies TacsZero elemIndex time Xpts vars dvars Te Pe s
    = Some (u, s') ->
  valid_scalar (scalars (mem s)) Te = true /\
  valid_scalar (scalars (mem s)) Pe = true.
Proof.
  unfold computeEnergies, bind. unfold store_scalar at 1.
  destruct (scalars (mem s) !! Te) as [y |] eqn:HTe; [| discriminate].
  unfold store_scalar. cbn [mem scalars].
  destruct (<[Te:=TacsZero]> (scalars (mem s)) !! Pe) as [y' |] eqn:HPe;
    [| discriminate].
  intros _. rewrite !valid_scalar_spec. split; [eauto |].
  destruct (decide (Te = Pe)) as [<- | Hne]; [eauto |].
  rewrite lookup_insert_ne in HPe by exact Hne. eauto.
Qed.

Lemma getMatVecDataSizes_inv (matType : ElementMatrixType) elemIndex
    _data_size _temp_size s u s' :
  getMatVecDataSizes matType elemIndex _data_size _temp_size s
    = Some (u, s') ->
  valid_int (ints (mem s)) _data_size = true /\
  valid_int (ints (mem s)) _temp_size = true.
Proof.
  unfold getMatVecDataSizes, bind. unfold store_int at 1.
  destruct (ints (mem s) !! _data_size) as [y |] eqn:Hd; [| discriminate].
  unfold store_int. cbn [mem ints].
  destruct (<[_data_size:=0]> (ints (mem s)) !! _temp_size) as [y' |] eqn:Ht;
    [| discriminate].
  intros _. rewrite !valid_int_spec. split; [eauto |].
  destruct (decide (_data_size = _temp_size)) as [<- | Hne]; [eauto |].
  rewrite lookup_insert_ne in Ht by exact Hne. eauto.
Qed.

Lemma getMatVecDataSizes_spec (matType : ElementMatrixType) elemIndex
    _data_size _temp_size s :
  valid_int (ints (mem s)) _data_size = true ->
  valid_int (ints (mem s)) _temp_size = true ->
  exists s',
    getMatVecDataSizes matType elemIndex _data_size _temp_size s
      = Some (tt, s') /\
    this s' = this s /\ scalars (mem s') = scalars (mem s) /\
    forall a, ints (mem s') !! a =
              if (a =? _data_size) || (a =? _temp_size) then Some 0
              else ints (mem s) !! a.
Proof.
  intros Hd%valid_int_spec Ht%valid_int_spec.
  unfold getMatVecDataSizes, bind.
  rewrite store_int_defined by exact Hd.
  rewrite store_int_defined
    by (cbn [mem ints]; apply lookup_insert_is_Some'; right; exact Ht).
  eexists. split; [reflexivity |]. cbn [this mem scalars ints].
  repeat split. intros a.
  destruct (Z.eqb_spec a _temp_size) as [-> | HnT].
  - rewrite orb_true_r. apply lookup_insert_eq.
  - rewrite orb_false_r, lookup_insert_ne by congruence.
    destruct (Z.eqb_spec a _data_size) as [-> | HnD].
    + apply lookup_insert_eq.
    + apply lookup_insert_ne. congruence.
Qed.

(** ** Unchecked buffers *)

(** X1: [getInitConditions] checks no bound: when one of [vars], [dvars] and
    [ddvars] is not an allocated array of
    [getNumNodes() * getVarsPerNode()] scalars (too short, or the product
    has overflowed to a negative count), the call has no defined
    behaviour. *)
Theorem getInitConditions_short_buffer_undefined (F : Formulation)
    elemIndex Xpts vars dvars ddvars n s :
  n = int_mul (getNumNodes F) (getVarsPerNode F) ->
  valid_range (scalars (mem s)) vars n &&
  valid_range (scalars (mem s)) dvars n &&
  valid_range (scalars (mem s)) ddvars n = false ->
  getInitConditions TacsZeroBytes F elemIndex Xpts vars dvars ddvars s
    = None.
Proof.
  intros Hn Hbad.
  destruct (getInitConditions TacsZeroBytes F elemIndex Xpts vars dvars
              ddvars s) as [[u s'] |] eqn:E; [| reflexivity].
  destruct (getInitConditions_inv _ _ _ _ _ _ _ _ _ _ Hn E)
    as (Hv & Hd & Hdd).
  rewrite Hv, Hd, Hdd in Hbad. discriminate.
Qed.

(** X2: [computeEnergies] checks neither pointer: when [Te] or [Pe] addresses
    no allocated scalar, the call has no defined behaviour. *)
Theorem computeEnergies_bad_pointer_undefined elemIndex (time : double)
    Xpts vars dvars Te Pe s :
  valid_scalar (scalars (mem s)) Te && valid_scalar (scalars (mem s)) Pe
    = false ->
  computeEnergies TacsZero elemIndex time Xpts vars dvars Te Pe s = None.
Proof.
  intros Hbad.
  destruct (computeEnergies TacsZero elemIndex time Xpts vars dvars Te Pe s)
    as [[u s'] |] eqn:E; [| reflexivity].
  destruct (computeEnergies_inv _ _ _ _ _ _ _ _ _ _ E) as (HTe & HPe).
  rewrite HTe, HPe in Hbad. discriminate.
Qed.

(** X3: [getMatVecDataSizes] checks neither pointer: when [_data_size] or
    [_temp_size] addresses no allocated [int], the call has no defined
    behaviour. *)
Theorem getMatVecDataSizes_bad_pointer_undefined
    (matType : ElementMatrixType) elemIndex _data_size _temp_size s :
  valid_int (ints (mem s)) _data_size && valid_int (ints (mem s)) _temp_size
    = false ->
  getMatVecDataSizes matType elemIndex _data_size _temp_size s = None.
Proof.
  intros Hbad.
  destruct (getMatVecDataSizes matType elemIndex _data_size _temp_size s)
    as [[u s'] |] eqn:E; [| reflexivity].
  destruct (getMatVecDataSizes_inv _ _ _ _ _ _ _ E) as (Hd & Ht).
  rewrite Hd, Ht in Hbad. discriminate.
Qed.

(** ** Initial conditions: edge cases and composition *)

Lemma load_cells_const z (k : nat) : forall p s,
  (forall i, 0 <= i < Z.of_nat k -> scalars (mem s) !! (p + i) = Some z) ->
  load_cells p k s = Some (replicate k z, s).
Proof.
  induction k as [|k IH]; intros p s H; cbn [load_cells replicate].
  - reflexivity.
  - unfold bind, load_scalar.
    assert (scalars (mem s) !! p = Some z) as ->
      by (rewrite <- (Z.add_0_r p); apply H; lia).
    rewrite IH; [reflexivity |].
    intros i Hi. replace (p + 1 + i) with (p + (i + 1)) by lia.
    apply H. lia.
Qed.

Lemma load_array_const z p n s :
  0 <= n ->
  (forall i, 0 <= i < n -> scalars (mem s) !! (p + i) = Some z) ->
  load_array p n s = Some (replicate (Z.to_nat n) z, s).
Proof.
  intros Hn H. unfold load_array.
  destruct (n <? 0) eqn:E; [apply Z.ltb_lt in E; lia |].
  apply load_cells_const. intros i Hi. apply H. lia.
Qed.

(** X4: An element without nodes, or without variables at its nodes, has no
    variables, and [getInitConditions] then writes nothing: the state after
    the call is the state before it. *)
Theorem getInitConditions_empty_element (F : Formulation)
    elemIndex Xpts vars dvars ddvars s :
  getNumNodes F = 0 \/ getVarsPerNode F = 0 ->
  getNumVariables F s = Some (0, s) /\
  getInitConditions TacsZeroBytes F elemIndex Xpts vars dvars ddvars s
    = Some (tt, s).
Proof.
  intros H.
  assert (H0 : int_mul (getNumNodes F) (getVarsPerNode F) = 0).
  { unfold int_mul. destruct H as [-> | ->];
      rewrite ?Z.mul_0_l, ?Z.mul_0_r; reflexivity. }
  unfold getNumVariables, getInitConditions. rewrite H0.
  split; reflexivity.
Qed.

(** X5: Reading the three arrays back after [getInitConditions] gives
    [getNumNodes() * getVarsPerNode()] copies of the scalar [memset]
    leaves behind, whatever the arrays held and however they overlap. *)
Theorem getInitConditions_read_back (F : Formulation)
    elemIndex Xpts vars dvars ddvars n s :
  n = int_mul (getNumNodes F) (getVarsPerNode F) ->
  valid_range (scalars (mem s)) vars n = true ->
  valid_range (scalars (mem s)) dvars n = true ->
  valid_range (scalars (mem s)) ddvars n = true ->
  exists s',
    getInitConditions TacsZeroBytes F elemIndex Xpts vars dvars ddvars s
      = Some (tt, s') /\
    load_array vars n s'
      = Some (replicate (Z.to_nat n) TacsZeroBytes, s') /\
    load_array dvars n s'
      = Some (replicate (Z.to_nat n) TacsZeroBytes, s') /\
    load_array ddvars n s'
      = Some (replicate (Z.to_nat n) TacsZeroBytes, s').
Proof.
  intros Hn Hv Hd Hdd.
  destruct (getInitConditions_spec F elemIndex Xpts vars dvars ddvars n s
              Hn Hv Hd Hdd) as (s' & Hrun & _ & _ & Hlk).
  apply valid_range_spec in Hv as [Hn0 _].
  exists s'. split; [exact Hrun |].
  repeat split; apply load_array_const; try exact Hn0;
    intros i Hi; rewrite Hlk.
  - assert (in_range vars n (vars + i) = true) as ->
      by (apply in_range_true; lia).
    reflexivity.
  - assert (in_range dvars n (dvars + i) = true) as ->
      by (apply in_range_true; lia).
    rewrite orb_true_r. reflexivity.
  - assert (in_range ddvars n (ddvars + i) = true) as ->
      by (apply in_range_true; lia).
    rewrite orb_true_r. reflexivity.
Qed.

(** X6: [getInitConditions] is idempotent: a second call with the same
    arguments leaves the state the first call produced. *)
Theorem getInitConditions_idempotent (F : Formulation)
    elemIndex Xpts vars dvars ddvars n s :
  n = int_mul (getNumNodes F) (getVarsPerNode F) ->
  valid_range (scalars (mem s)) vars n = true ->
  valid_range (scalars (mem s)) dvars n = true ->
  valid_range (scalars (mem s)) ddvars n = true ->
  exists s',
    getInitConditions TacsZeroBytes F elemIndex Xpts vars dvars ddvars s
      = Some (tt, s') /\
    getInitConditions TacsZeroBytes F elemIndex Xpts vars dvars ddvars s'
      = Some (tt, s').
Proof.
  intros Hn Hv Hd Hdd.
  destruct (getInitConditions_spec F elemIndex Xpts vars dvars ddvars n s
              Hn Hv Hd Hdd) as (s1 & Hrun1 & Ht1 & Hi1 & Hl1).
  destruct (getInitConditions_alloc _ _ _ _ _ _ _ _ _ Hrun1)
    as (_ & _ & A1).
  apply (valid_range_transport _ _ _ _ A1) in Hv.
  apply (valid_range_transport _ _ _ _ A1) in Hd.
  apply (valid_range_transport _ _ _ _ A1) in Hdd.
  destruct (getInitConditions_spec F elemIndex Xpts vars dvars ddvars n s1
              Hn Hv Hd Hdd) as (s2 & Hrun2 & Ht2 & Hi2 & Hl2).
  exists s1. split; [exact Hrun1 |]. rewrite Hrun2. do 2 f_equal.
  apply state_eq; [exact Ht2 | exact Hi2 |].
  intros a. rewrite Hl2, Hl1.
  destruct (in_range vars n a || in_range dvars n a || in_range ddvars n a);
    reflexivity.
Qed.

Lemma computeEnergies_alloc elemIndex (time : double) Xpts vars dvars Te Pe
    s u s' :
  computeEnergies TacsZero elemIndex time Xpts vars dvars Te Pe s
    = Some (u, s') ->
  this s' = this s /\ ints (mem s') = ints (mem s) /\
  forall a, is_Some (scalars (mem s') !! a) <->
            is_Some (scalars (mem s) !! a).
Proof.
  intros Hrun.
  destruct (computeEnergies_inv _ _ _ _ _ _ _ _ _ _ Hrun) as (HTe & HPe).
  destruct (computeEnergies_spec elemIndex time Xpts vars dvars Te Pe s
              HTe HPe) as (s2 & Hrun2 & Hthis & Hints & Hlk).
  rewrite Hrun in Hrun2. destruct u. injection Hrun2 as <-.
  split; [exact Hthis |]. split; [exact Hints |].
  intros a. rewrite Hlk.
  apply valid_scalar_spec in HTe, HPe.
  destruct (Z.eqb_spec a Te) as [-> | ?]; cbn [orb]; [split; eauto |].
  destruct (Z.eqb_spec a Pe) as [-> | ?]; [split; eauto | reflexivity].
Qed.

(** X7: The two default initialisers commute: zeroing the initial state and
    zeroing the energies give the same final state in either order, also
    when the energy cells lie inside the state arrays. *)
Theorem getInitConditions_computeEnergies_commute (F : Formulation)
    elemIndex elemIndex' (time : double) Xpts Xpts' vars vars' dvars dvars'
    ddvars Te Pe n s :
  TacsZeroBytes = TacsZero ->
  n = int_mul (getNumNodes F) (getVarsPerNode F) ->
  valid_range (scalars (mem s)) vars n = true ->
  valid_range (scalars (mem s)) dvars n = true ->
  valid_range (scalars (mem s)) ddvars n = true ->
  valid_scalar (scalars (mem s)) Te = true ->
  valid_scalar (scalars (mem s)) Pe = true ->
  exists s',
    bind (getInitConditions TacsZeroBytes F elemIndex Xpts vars dvars ddvars)
         (fun _ => computeEnergies TacsZero elemIndex' time Xpts' vars'
                                   dvars' Te Pe) s
      = Some (tt, s') /\
    bind (computeEnergies TacsZero elemIndex' time Xpts' vars' dvars' Te Pe)
         (fun _ => getInitConditions TacsZeroBytes F elemIndex Xpts vars
                                     dvars ddvars) s
      = Some (tt, s').
Proof.
  intros Hrep Hn Hv Hd Hdd HTe HPe.
  destruct (getInitConditions_spec F elemIndex Xpts vars dvars ddvars n s
              Hn Hv Hd Hdd) as (s1 & Hrun1 & Ht1 & Hi1 & Hl1).
  destruct (getInitConditions_alloc _ _ _ _ _ _ _ _ _ Hrun1)
    as (_ & _ & A1).
  pose proof (valid_scalar_transport _ _ _ A1 HTe) as HTe1.
  pose proof (valid_scalar_transport _ _ _ A1 HPe) as HPe1.
  destruct (computeEnergies_spec elemIndex' time Xpts' vars' dvars' Te Pe s1
              HTe1 HPe1) as (s12 & Hrun12 & Ht12 & Hi12 & Hl12).
  destruct (computeEnergies_spec elemIndex' time Xpts' vars' dvars' Te Pe s
              HTe HPe) as (s2 & Hrun2 & Ht2 & Hi2 & Hl2).
  destruct (computeEnergies_alloc _ _ _ _ _ _ _ _ _ _ Hrun2)
    as (_ & _ & A2).
  apply (valid_range_transport _ _ _ _ A2) in Hv.
  apply (valid_range_transport _ _ _ _ A2) in Hd.
  apply (valid_range_transport _ _ _ _ A2) in Hdd.
  destruct (getInitConditions_spec F elemIndex Xpts vars dvars ddvars n s2
              Hn Hv Hd Hdd) as (s21 & Hrun21 & Ht21 & Hi21 & Hl21).
  exists s12. unfold bind. rewrite Hrun1, Hrun12, Hrun2, Hrun21.
  split; [reflexivity |]. do 2 f_equal.
  apply state_eq; [congruence | congruence |].
  intros a. rewrite Hl21, Hl2, Hl12, Hl1, Hrep.
  destruct (in_range vars n a || in_range dvars n a || in_range ddvars n a),
           ((a =? Te) || (a =? Pe)); reflexivity.
Qed.

(** ** Sequences of calls *)

Lemma getMatVecDataSizes_alloc (matType : ElementMatrixType) elemIndex
    _data_size _temp_size s u s' :
  getMatVecDataSizes matType elemIndex _data_size _temp_size s
    = Some (u, s') ->
  this s' = this s /\ scalars (mem s') = scalars (mem s) /\
  forall a, is_Some (ints (mem s') !! a) <-> is_Some (ints (mem s) !! a).
Proof.
  intros Hrun.
  destruct (getMatVecDataSizes_inv _ _ _ _ _ _ _ Hrun) as (Hd & Ht).
  destruct (getMatVecDataSizes_spec matType elemIndex _data_size _temp_size
              s Hd Ht) as (s2 & Hrun2 & Hthis & Hsc & Hlk).
  rewrite Hrun in Hrun2. destruct u. injection Hrun2 as <-.
  split; [exact Hthis |]. split; [exact Hsc |].
  intros a. rewrite Hlk.
  apply valid_int_spec in Hd, Ht.
  destruct (Z.eqb_spec a _data_size) as [-> | ?]; cbn [orb];
    [split; eauto |].
  destruct (Z.eqb_spec a _temp_size) as [-> | ?];
    [split; eauto | reflexivity].
Qed.

(** What one call does to the object and to the allocation. *)
Lemma exec_step (F : Formulation) (c : Call ElementMatrixType double)
    s u s' :
  exec TacsZero TacsZeroBytes F c s = Some (u, s') ->
  this s' = {| componentNum := last_componentNum [c] (componentNum (this s));
               fdOrder := fdOrder (this s) |} /\
  (forall a, is_Some (scalars (mem s') !! a) <->
             is_Some (scalars (mem s) !! a)) /\
  (forall a, is_Some (ints (mem s') !! a) <-> is_Some (ints (mem s) !! a)).
Proof.
  assert (Heta : this s = {| componentNum := componentNum (this s);
                             fdOrder := fdOrder (this s) |})
    by (destruct (this s); reflexivity).
  destruct u, c; cbn [exec last_componentNum fold_left]; intros H;
    try (unfold drop, bind, setComponentNum, getComponentNum, getObjectName,
           getNumVariables, getMultiplierIndex, getElementBasis,
           getElementModel, addMatVecProduct, evalPointQuantity, ret in H;
         injection H as <-; cbn [this mem];
         split; [try exact Heta; reflexivity |]; split; reflexivity).
  - destruct (getInitConditions_alloc _ _ _ _ _ _ _ _ _ H)
      as (Hthis & Hints & Hsc).
    rewrite Hthis, Hints. split; [exact Heta |]. split; [exact Hsc |].
    reflexivity.
  - destruct (computeEnergies_alloc _ _ _ _ _ _ _ _ _ _ H)
      as (Hthis & Hints & Hsc).
    rewrite Hthis, Hints. split; [exact Heta |]. split; [exact Hsc |].
    reflexivity.
  - destruct (getMatVecDataSizes_alloc _ _ _ _ _ _ _ H)
      as (Hthis & Hsc & Hints).
    rewrite Hthis, Hsc. split; [exact Heta |]. split; [reflexivity |].
    exact Hints.
Qed.

Lemma last_componentNum_cons (c : Call ElementMatrixType double) calls c0 :
  last_componentNum (c :: calls) c0
  = last_componentNum calls (last_componentNum [c] c0).
Proof. reflexivity. Qed.



(** ** Evaluation does not depend on the fields of the object *)

Lemma store_scalar_rel p x s1 s2 :
  mem s1 = mem s2 ->
  same_outcome (store_scalar p x s1) (store_scalar p x s2).
Proof.
  intros H. unfold store_scalar. rewrite H.
  destruct (scalars (mem s2) !! p); cbn; [reflexivity | exact I].
Qed.

Lemma store_int_rel p z s1 s2 :
  mem s1 = mem s2 ->
  same_outcome (store_int p z s1) (store_int p z s2).
Proof.
  intros H. unfold store_int. rewrite H.
  destruct (ints (mem s2) !! p); cbn; [reflexivity | exact I].
Qed.

Lemma bind_rel (m1 m2 k1 k2 : M TacsScalar unit) :
  (forall s1 s2, mem s1 = mem s2 -> same_outcome (m1 s1) (m2 s2)) ->
  (forall s1 s2, mem s1 = mem s2 -> same_outcome (k1 s1) (k2 s2)) ->
  forall s1 s2, mem s1 = mem s2 ->
    same_outcome (bind m1 (fun _ => k1) s1) (bind m2 (fun _ => k2) s2).
Proof.
  intros Hm Hk s1 s2 H. unfold bind.
  specialize (Hm s1 s2 H). unfold same_outcome in Hm.
  destruct (m1 s1) as [[u1 t1] |], (m2 s2) as [[u2 t2] |];
    try contradiction; [apply Hk, Hm | exact I].
Qed.

Lemma zero_cells_rel z (k : nat) : forall p s1 s2,
  mem s1 = mem s2 ->
  same_outcome (zero_cells z p k s1) (zero_cells z p k s2).
Proof.
  induction k as [|k IH]; intros p s1 s2 H; cbn [zero_cells].
  - exact H.
  - apply bind_rel; [intros; apply store_scalar_rel; assumption | | exact H].
    intros. apply IH. assumption.
Qed.

Lemma memset_zero_rel z p n s1 s2 :
  mem s1 = mem s2 ->
  same_outcome (memset_zero z p n s1) (memset_zero z p n s2).
Proof.
  intros H. unfold memset_zero.
  destruct (n <? 0); [exact I | apply zero_cells_rel, H].
Qed.

Lemma exec_rel (F : Formulation) (c : Call ElementMatrixType double) s1 s2 :
  mem s1 = mem s2 ->
  same_outcome (exec TacsZero TacsZeroBytes F c s1)
               (exec TacsZero TacsZeroBytes F c s2).
Proof.
  intros H. destruct c; cbn [exec]; try exact H.
  - unfold getInitConditions.
    apply bind_rel;
      [intros; apply memset_zero_rel; assumption | | exact H].
    intros t1 t2 Ht. apply bind_rel;
      [intros; apply memset_zero_rel; assumption | | exact Ht].
    intros. apply memset_zero_rel. assumption.
  - unfold computeEnergies.
    apply bind_rel; [| | exact H]; intros; apply store_scalar_rel;
      assumption.
  - unfold getMatVecDataSizes.
    apply bind_rel; [| | exact H]; intros; apply store_int_rel; assumption.
Qed.


(** ** The defaults contribute nothing *)

Lemma exec_writes_zero (F : Formulation)
    (c : Call ElementMatrixType double) s u s' :
  exec TacsZero TacsZeroBytes F c s = Some (u, s') ->
  (forall a, scalars (mem s') !! a = scalars (mem s) !! a \/
             scalars (mem s') !! a = Some TacsZero \/
             scalars (mem s') !! a = Some TacsZeroBytes) /\
  (forall a, ints (mem s') !! a = ints (mem s) !! a \/
             ints (mem s') !! a = Some 0).
Proof.
  destruct u, c; cbn [exec]; intros H;
    try (unfold drop, bind, setComponentNum, getComponentNum, getObjectName,
           getNumVariables, getMultiplierIndex, getElementBasis,
           getElementModel, addMatVecProduct, evalPointQuantity, ret in H;
         injection H as <-; cbn [this mem]; split; intros a; left;
         reflexivity).
  - destruct (getInitConditions_inv _ _ _ _ _ _ _ _ _ _ eq_refl H)
      as (Hv & Hd & Hdd).
    destruct (getInitConditions_spec F elemIndex Xpts vars dvars ddvars _ s
                eq_refl Hv Hd Hdd) as (s2 & Hrun2 & _ & Hints & Hlk).
    rewrite H in Hrun2. injection Hrun2 as <-.
    split; intros a; [| left; rewrite Hints; reflexivity].
    rewrite Hlk.
    destruct (_ || _); [right; right | left]; reflexivity.
  - destruct (computeEnergies_inv _ _ _ _ _ _ _ _ _ _ H) as (HTe & HPe).
    destruct (computeEnergies_spec elemIndex time Xpts vars dvars Te Pe s
                HTe HPe) as (s2 & Hrun2 & _ & Hints & Hlk).
    rewrite H in Hrun2. injection Hrun2 as <-.
    split; intros a; [| left; rewrite Hints; reflexivity].
    rewrite Hlk.
    destruct (_ || _); [right; left | left]; reflexivity.
  - destruct (getMatVecDataSizes_inv _ _ _ _ _ _ _ H) as (Hd & Ht).
    destruct (getMatVecDataSizes_spec matType elemIndex _data_size
                _temp_size s Hd Ht) as (s2 & Hrun2 & _ & Hsc & Hlk).
    rewrite H in Hrun2. injection Hrun2 as <-.
    split; intros a; [left; rewrite Hsc; reflexivity |].
    rewrite Hlk.
    destruct (_ || _); [right | left]; reflexivity.
Qed.


End ElementProperties.

(** * The properties at the two-node spring *)

Lemma getNumVariables_is_product_witness :
  in_int_range (getNumNodes spring * getVarsPerNode spring) = true /\
  getNumVariables spring demo_state = Some (2, demo_state).
Proof.
  split; [reflexivity |].
  apply (proj2 (getNumVariables_is_product float spring demo_state)).
  reflexivity.
Defined.

Lemma getMultiplierIndex_default_sentinel_witness :
  node_index 0 = true /\
  exists r, getMultiplierIndex demo_state = Some (r, demo_state) /\ r <> 0.
Proof.
  split; [reflexivity |].
  destruct (getMultiplierIndex_default_sentinel float demo_state)
    as (r & Hr & _ & _ & Hi).
  exists r. split; [exact Hr |]. apply (Hi 0). reflexivity.
Defined.

Lemma getInitConditions_default_all_zero_witness :
  exists s',
    getInitConditions 0%float spring 0 0 10 20 30 demo_state = Some (tt, s') /\
    (forall i, 0 <= i < 2 ->
       scalars (mem s') !! (10 + i) = Some 0%float /\
       scalars (mem s') !! (20 + i) = Some 0%float /\
       scalars (mem s') !! (30 + i) = Some 0%float) /\
    (forall a,
       in_range 10 2 a = false -> in_range 20 2 a = false ->
       in_range 30 2 a = false ->
       scalars (mem s') !! a = scalars (mem demo_state) !! a).
Proof.
  apply (getInitConditions_default_all_zero float 0%float 0%float spring
           0 0 10 20 30 2 demo_state); vm_compute; reflexivity.
Defined.

Lemma computeEnergies_default_zero_witness :
  exists s',
    computeEnergies 0%float 0 0%float 0 10 20 50 51 demo_state
      = Some (tt, s') /\
    scalars (mem s') !! 50 = Some 0%float /\
    scalars (mem s') !! 51 = Some 0%float.
Proof.
  apply (computeEnergies_default_zero float 0%float float
           0 0%float 0 10 20 50 51 demo_state); vm_compute; reflexivity.
Defined.

Lemma matvec_default_unsupported_witness :
  (exists s',
     getMatVecDataSizes MassMatrix 0 0 1 demo_state = Some (tt, s') /\
     ints (mem s') !! 0 = Some 0 /\
     ints (mem s') !! 1 = Some 0 /\
     scalars (mem s') = scalars (mem demo_state) /\
     this s' = this demo_state /\
     addMatVecProduct MassMatrix 0 0 0 10 40 s' = Some (tt, s')) /\
  addMatVecProduct MassMatrix 0 0 0 10 40 demo_state = Some (tt, demo_state).
Proof.
  apply (matvec_default_unsupported float MatrixKind MassMatrix
           0 0 1 0 0 10 40 demo_state); vm_compute; reflexivity.
Defined.

Lemma default_evaluation_frame_witness :
  (exists s',
     getInitConditions 0%float spring 0 0 10 20 30 demo_state
       = Some (tt, s') /\
     this s' = this demo_state /\ ints (mem s') = ints (mem demo_state) /\
     same_array demo_state s' 0 6) /\
  (exists s',
     computeEnergies 0%float 0 0%float 0 10 20 50 51 demo_state
       = Some (tt, s') /\
     this s' = this demo_state /\ ints (mem s') = ints (mem demo_state) /\
     same_array demo_state s' 0 6 /\ same_array demo_state s' 10 2 /\
     same_array demo_state s' 20 2) /\
  addMatVecProduct MassMatrix 0 0 0 10 40 demo_state
    = Some (tt, demo_state) /\
  evalPointQuantity 0 0 0%float 0 0 0 10 20 30 60 61 demo_state
    = Some (0, demo_state).
Proof.
  apply (default_evaluation_frame float 0%float 0%float MatrixKind float
           spring MassMatrix 0 0 0%float 0 0 0 10 20 30 50 51 0 0 10 40
           60 61 2 6 demo_state); vm_compute; reflexivity.
Defined.

Lemma addResidual_accumulates_twice_witness :
  exists s1 s2,
    addResidual PrimFloat.add spring (spring_residual 3%float) 0 0%float
                0 10 20 30 40 demo_state = Some (tt, s1) /\
    addResidual PrimFloat.add spring (spring_residual 3%float) 0 0%float
                0 10 20 30 40 s1 = Some (tt, s2) /\
    scalars (mem s1) !! 40 = Some 3%float /\
    scalars (mem s2) !! 40 = Some 6%float.
Proof.
  destruct (addResidual_accumulates_twice float 0%float PrimFloat.add float
              spring (spring_residual 3%float) 0 0%float 0 10 20 30 40 2 6
              [0; 0; 0; 1; 0; 0]%float [1; 0]%float [0.5; 0.25]%float
              [2; 4]%float demo_state)
    as (s1 & s2 & H1 & H2 & Hcells); try (vm_compute; reflexivity).
  exists s1, s2. split; [exact H1 |]. split; [exact H2 |].
  destruct (Hcells 0%nat 0%float 3%float) as (_ & _ & Hzero);
    try (vm_compute; reflexivity).
  apply Hzero; reflexivity.
Defined.

(** C4, counterexample: [evalPointQuantity] does not write [detXd].  The
    two states differ in nothing but the stale value of the [detXd] cell
    (1.5 and 9); the default body returns 0 on both and the cell keeps its
    stale value, so no determinant has been stored in it. *)
Lemma evalPointQuantity_default_leaves_detXd :
  evalPointQuantity 0 0 0%float 0 0 0 10 20 30 60 61 demo_state
    = Some (0, demo_state) /\
  evalPointQuantity 0 0 0%float 0 0 0 10 20 30 60 61 demo_state'
    = Some (0, demo_state') /\
  scalars (mem demo_state) !! 60 = Some 1.5%float /\
  scalars (mem demo_state') !! 60 = Some 9%float /\
  ~ (exists d : float,
       forall s, s = demo_state \/ s = demo_state' ->
         exists r s',
           evalPointQuantity 0 0 0%float 0 0 0 10 20 30 60 61 s
             = Some (r, s') /\
           scalars (mem s') !! 60 = Some d).
Proof.
  split; [reflexivity |]. split; [reflexivity |].
  split; [vm_compute; reflexivity |]. split; [vm_compute; reflexivity |].
  intros [d Hd].
  destruct (Hd demo_state (or_introl eq_refl)) as (r1 & s1 & Hr1 & Hc1).
  destruct (Hd demo_state' (or_intror eq_refl)) as (r2 & s2 & Hr2 & Hc2).
  unfold evalPointQuantity, ret in Hr1, Hr2.
  injection Hr1 as _ <-. injection Hr2 as _ <-.
  vm_compute in Hc1, Hc2.
  assert (Heq : 1.5%float = 9%float) by congruence.
  pose proof (f_equal (fun x => PrimFloat.eqb x 9%float) Heq) as Hb.
  vm_compute in Hb. discriminate Hb.
Qed.

(** * The further properties at the two-node spring *)

Lemma getInitConditions_short_buffer_undefined_witness :
  valid_range demo_scalars 31 2 = false /\
  getInitConditions 0%float spring 0 0 10 20 31 demo_state = None.
Proof.
  split; [vm_compute; reflexivity |].
  apply (getInitConditions_short_buffer_undefined float 0%float spring
           0 0 10 20 31 2 demo_state); vm_compute; reflexivity.
Defined.

Lemma computeEnergies_bad_pointer_undefined_witness :
  valid_scalar demo_scalars 52 = false /\
  computeEnergies 0%float 0 0%float 0 10 20 50 52 demo_state = None.
Proof.
  split; [vm_compute; reflexivity |].
  apply (computeEnergies_bad_pointer_undefined float 0%float float
           0 0%float 0 10 20 50 52 demo_state); vm_compute; reflexivity.
Defined.

Lemma getMatVecDataSizes_bad_pointer_undefined_witness :
  valid_int demo_ints 2 = false /\
  getMatVecDataSizes StiffnessMatrix 0 0 2 demo_state = None.
Proof.
  split; [vm_compute; reflexivity |].
  apply (getMatVecDataSizes_bad_pointer_undefined float MatrixKind
           StiffnessMatrix 0 0 2 demo_state); vm_compute; reflexivity.
Defined.

Lemma getInitConditions_empty_element_witness :
  getNumVariables {| getVarsPerNode := 6; getNumNodes := 0 |} demo_state
    = Some (0, demo_state) /\
  getInitConditions 0%float {| getVarsPerNode := 6; getNumNodes := 0 |}
                    0 0 10 20 30 demo_state
    = Some (tt, demo_state).
Proof.
  apply (getInitConditions_empty_element float 0%float
           {| getVarsPerNode := 6; getNumNodes := 0 |} 0 0 10 20 30
           demo_state).
  left. reflexivity.
Defined.

Lemma getInitConditions_read_back_witness :
  exists s',
    getInitConditions 0%float spring 0 0 10 20 30 demo_state
      = Some (tt, s') /\
    load_array 10 2 s' = Some ([0; 0]%float, s') /\
    load_array 20 2 s' = Some ([0; 0]%float, s') /\
    load_array 30 2 s' = Some ([0; 0]%float, s').
Proof.
  apply (getInitConditions_read_back float 0%float spring 0 0 10 20 30 2
           demo_state); vm_compute; reflexivity.
Defined.

Lemma getInitConditions_idempotent_witness :
  exists s',
    getInitConditions 0%float spring 0 0 10 20 30 demo_state
      = Some (tt, s') /\
    getInitConditions 0%float spring 0 0 10 20 30 s' = Some (tt, s').
Proof.
  apply (getInitConditions_idempotent float 0%float spring 0 0 10 20 30 2
           demo_state); vm_compute; reflexivity.
Defined.

Lemma getInitConditions_computeEnergies_commute_witness :
  exists s',
    bind (getInitConditions 0%float spring 0 0 10 20 30)
         (fun _ => computeEnergies 0%float 0 0%float 0 10 20 50 51)
         demo_state
      = Some (tt, s') /\
    bind (computeEnergies 0%float 0 0%float 0 10 20 50 51)
         (fun _ => getInitConditions 0%float spring 0 0 10 20 30)
         demo_state
      = Some (tt, s').
Proof.
  apply (getInitConditions_computeEnergies_commute float 0%float 0%float
           float spring 0 0 0%float 0 0 10 10 20 20 30 50 51 2 demo_state);
    vm_compute; reflexivity.
Defined.




